(** * pulse-api: session custody and motion-payload builders

    A shallow embedding of [pulseapi/session.py] and [pulseapi/utils.py].
    Python exceptions are values of [exn]; a call either returns or raises
    ([outcome]).  The builders of [utils.py] are pure, the [Session] class
    threads its own fields, the controller behind [pdhttp.SessionApi] and
    the list of requests put on the wire through a state-and-exception
    monad. *)

From Stdlib Require Import PrimFloat.
From stdpp Require Import gmap strings list.

Open Scope float_scope.

(** ** Exceptions and outcomes *)

(** An exception object: the name of its class and its argument. *)
Record exn := Exn { exn_class : string; exn_args : string }.

#[global] Instance exn_eq_dec : EqDecision exn.
Proof. solve_decision. Defined.

Inductive outcome (A : Type) : Type :=
| Return (a : A)
| Raise (e : exn).
Arguments Return {A} a.
Arguments Raise {A} e.

#[global] Instance outcome_ret : MRet outcome := fun A a => Return a.
#[global] Instance outcome_bind : MBind outcome := fun A B f m =>
  match m with
  | Return a => f a
  | Raise e => Raise e
  end.

(** [raises cls o]: the call ended in an exception of class [cls]. *)
Definition raises {A} (cls : string) (o : outcome A) : Prop :=
  match o with
  | Return _ => False
  | Raise e => exn_class e = cls
  end.

#[global] Instance raises_dec {A} cls (o : outcome A) : Decision (raises cls o).
Proof. destruct o; simpl; apply _. Defined.

(** The error classes the specification names for the builders. *)
Definition ShapeError : string := "ShapeError".
Definition RangeError : string := "RangeError".
Definition TypeError : string := "TypeError".
Definition KeyError : string := "KeyError".

(** The class of the errors the pdhttp setters raise. *)
Definition ValueError : string := "ValueError".

(** ** The pdhttp data-transfer objects used by [utils.py] *)

Module pdhttp.

(** Modelled from the spec: [pdhttp.Point], the Cartesian point of a
    [Position]; a value object of exactly three numeric components. *)
Record Point := mkPoint { point_x : float; point_y : float; point_z : float }.

(** Modelled from the spec: [pdhttp.Rotation], the rotation of a [Position];
    a value object of exactly three numeric components. *)
Record Rotation := mkRotation { roll : float; pitch : float; yaw : float }.

(** Modelled from the spec: [pdhttp.Position], a Cartesian point, a rotation
    and an optional ordered list of robot actions.  The generated class
    declares its fields in the order point, rotation, blend, actions; [blend]
    is a number. *)
Record Position (A : Type) := mkPosition {
  point : Point;
  rotation : Rotation;
  blend : option float;
  actions : option (list A)
}.
Arguments mkPosition {A} _ _ _ _.
Arguments point {A} _.
Arguments rotation {A} _.
Arguments blend {A} _.
Arguments actions {A} _.

(** Modelled from the spec: [pdhttp.Pose], the ordered joint angles; the
    object keeps the sequence it is given. *)
Record Pose := mkPose { angles : list float }.

(** Modelled from the spec: [pdhttp.JoggingAccelerationAcceleration], the
    six components of a jog vector; a bounded vector, whose constructor
    admits no component above 1 or below -1. *)
Record JoggingAccelerationAcceleration := mkJAA {
  jog_x : float; jog_y : float; jog_z : float;
  jog_rx : float; jog_ry : float; jog_rz : float
}.

(** Modelled from the spec: [pdhttp.JoggingAcceleration], the wrapper the
    controller expects around the six components. *)
Record JoggingAcceleration := mkJoggingAcceleration {
  acceleration : JoggingAccelerationAcceleration
}.

(** Python binds the positional arguments [args] of a call to three
    parameters that default to [None]; more than three arguments do not
    match the signature, which is a [TypeError]. *)
Definition bind3 (callee : string) (args : list float)
    : outcome (option float * option float * option float) :=
  match args with
  | [] => Return (None, None, None)
  | [a] => Return (Some a, None, None)
  | [a; b] => Return (Some a, Some b, None)
  | [a; b; c] => Return (Some a, Some b, Some c)
  | _ => Raise (Exn TypeError callee)
  end.

(** The setter of a required field: [None] is refused with [ValueError]. *)
Definition required (field : string) (v : option float) : outcome float :=
  match v with
  | Some a => Return a
  | None => Raise (Exn ValueError field)
  end.

(** Modelled from the spec: the call [Point( *args )].  The three components
    are required fields with parameters defaulting to [None], set in the
    order x, y, z. *)
Definition Point_call (args : list float) : outcome Point :=
  '(x, y, z) ← bind3 "Point" args;
  x ← required "x" x;
  y ← required "y" y;
  z ← required "z" z;
  mret (mkPoint x y z).

(** Modelled from the spec: the call [Rotation( *args )], as [Point_call],
    with the fields roll, pitch, yaw. *)
Definition Rotation_call (args : list float) : outcome Rotation :=
  '(r, p, y) ← bind3 "Rotation" args;
  r ← required "roll" r;
  p ← required "pitch" p;
  y ← required "yaw" y;
  mret (mkRotation r p y).

(** Modelled from the spec: the call [Position(point, rotation, third)] with
    three positional arguments.  The third parameter of the constructor is
    [blend], a number, and [actions] comes after it: [None] in third place
    leaves both unset, and a list in third place is not a number, which the
    constructor refuses with [TypeError]. *)
Definition Position_call {A} (p : Point) (r : Rotation)
    (third : option (list A)) : outcome (Position A) :=
  match third with
  | None => Return (mkPosition p r None None)
  | Some _ => Raise (Exn TypeError "blend")
  end.

(** The range test of the setters of a jog component: the value is above
    the maximum 1 or below the minimum -1. *)
Definition exceeds_unit (v : float) : bool :=
  PrimFloat.ltb 1 v || PrimFloat.ltb v (-1).

(** The setter of a jog component: the maximum is tested, then the minimum,
    and a value beyond either is refused with [ValueError]. *)
Definition bounded (field : string) (v : float) : outcome float :=
  if PrimFloat.ltb 1 v then Raise (Exn ValueError field)
  else if PrimFloat.ltb v (-1) then Raise (Exn ValueError field)
  else Return v.

(** Modelled from the spec: the call
    [JoggingAccelerationAcceleration(x, y, z, rx, ry, rz)]; the components
    are set, and tested, in this order. *)
Definition JoggingAccelerationAcceleration_call (x y z rx ry rz : float)
    : outcome JoggingAccelerationAcceleration :=
  x ← bounded "x" x;
  y ← bounded "y" y;
  z ← bounded "z" z;
  rx ← bounded "rx" rx;
  ry ← bounded "ry" ry;
  rz ← bounded "rz" rz;
  mret (mkJAA x y z rx ry rz).

(** [pdhttp.Session(mode=...)]: the body of an open request, carrying the
    mode marker. *)
Record Session := mkSession { mode : string }.

#[global] Instance Session_eq_dec : EqDecision Session.
Proof. solve_decision. Defined.

End pdhttp.

(** ** utils.py *)

Module utils.
Import pdhttp.

(** [position(point, rotation, actions=None)]:
    [return Position(Point( *point ), Rotation( *rotation ), actions)].
    The arguments of [Position] are evaluated left to right. *)
Definition position {A} (point rotation : list float)
    (actions : option (list A)) : outcome (Position A) :=
  p ← Point_call point;
  r ← Rotation_call rotation;
  Position_call p r actions.

(** [pose(angles, actions=None)]: [return Pose(angles)]; [actions] is accepted
    and not used. *)
Definition pose {A} (angles : list float) (actions : option (list A))
    : outcome Pose :=
  mret (mkPose angles).

(** [jog(x=0, y=0, z=0, rx=0, ry=0, rz=0)].  An argument the caller leaves
    out is [None] here and takes the default of the signature. *)
Definition jog (x y z rx ry rz : option float) : outcome JoggingAcceleration :=
  let x := default 0 x in
  let y := default 0 y in
  let z := default 0 z in
  let rx := default 0 rx in
  let ry := default 0 ry in
  let rz := default 0 rz in
  a ← JoggingAccelerationAcceleration_call x y z rx ry rz;
  mret (mkJoggingAcceleration a).

(** The closed interval [-1, 1] of the docstring of [jog]. *)
Definition in_unit_range (v : float) : bool :=
  PrimFloat.leb (-1) v && PrimFloat.leb v 1.

(** The range test on an argument of [jog], after defaulting. *)
Definition arg_in_range (v : option float) : bool :=
  in_unit_range (default 0 v).

(** An argument of [jog] that, after defaulting, is above 1 or below -1. *)
Definition arg_exceeds (v : option float) : bool :=
  exceeds_unit (default 0 v).

End utils.


(** ** session.py *)

Module session.

(** *** The collaborator behind [pdhttp.SessionApi]

    The controller is not part of this repository.  It is a state machine
    of its own: a request for a host is answered from the controller's
    current state [world] by a return value or an exception, and moves the
    controller to a new state.  [open_session_with_http_info] answers with
    the triple (data, status, headers) that the source unpacks. *)
Record SessionApi := mkSessionApi {
  world : Type;
  open_session_with_http_info :
    string -> pdhttp.Session -> world ->
    outcome (pdhttp.Session * Z * gmap string string) * world;
  delete_session : string -> string -> world -> outcome unit * world
}.

(** A request put on the wire, with the host it was sent to. *)
Inductive request :=
| OpenRequest (host : string) (body : pdhttp.Session)
| DeleteRequest (host : string) (token : string).

#[global] Instance request_eq_dec : EqDecision request.
Proof. solve_decision. Defined.

(** The fields of a [Session] object: [self._token] and
    [self._api.api_client.configuration.host]. *)
Record Session := mkSessionObject { _token : option string; host : string }.

(** [READ_WRITE = pdhttp.Session(mode="READ_WRITE")] and
    [READ_ONLY = pdhttp.Session(mode="READ_ONLY")]. *)
Definition READ_WRITE : pdhttp.Session := pdhttp.mkSession "READ_WRITE".
Definition READ_ONLY : pdhttp.Session := pdhttp.mkSession "READ_ONLY".

(** The [location] setter on the fields:
    [self._api.api_client.configuration.host = new_location]. *)
Definition rebind (self : Session) (new_location : string) : Session :=
  {| _token := _token self; host := new_location |}.

(** [__init__(self, location)]: the host is bound, [_token] is [None], and
    the [location] setter binds the host once more. *)
Definition __init__ (location : string) : Session :=
  let self := {| _token := None; host := location |} in
  rebind self location.

Section WithController.
Context (api : SessionApi).

(** What a method can read and change: the object, the controller, and the
    requests sent so far (oldest first). *)
Record state := mkState {
  self : Session;
  ctl : world api;
  wire : list request
}.

(** The state a request leaves behind: the object [s], the controller in
    state [w], and the request [q] appended to the wire. *)
Definition sent (st : state) (s : Session) (w : world api) (q : request)
    : state :=
  {| self := s; ctl := w; wire := wire st ++ [q] |}.

(** A method body: it ends by returning or by raising, and in both cases
    leaves a state behind. *)
Definition M (A : Type) : Type := state -> outcome A * state.

#[global] Instance M_ret : MRet M := fun A a st => (Return a, st).
#[global] Instance M_bind : MBind M := fun A B f m st =>
  match m st with
  | (Return a, st') => f a st'
  | (Raise e, st') => (Raise e, st')
  end.

Definition raise {A} (e : exn) : M A := fun st => (Raise e, st).

Definition get_token : M (option string) :=
  fun st => (Return (_token (self st)), st).

Definition set_token (t : option string) : M unit := fun st =>
  (Return tt,
   {| self := {| _token := t; host := host (self st) |};
      ctl := ctl st; wire := wire st |}).

(** [self._api.open_session_with_http_info(mode, _return_http_data_only=False)] *)
Definition api_open_session_with_http_info (body : pdhttp.Session)
    : M (pdhttp.Session * Z * gmap string string) := fun st =>
  let h := host (self st) in
  let '(r, w) := open_session_with_http_info api h body (ctl st) in
  (r, {| self := self st; ctl := w; wire := wire st ++ [OpenRequest h body] |}).

(** [self._api.delete_session(token)] *)
Definition api_delete_session (token : string) : M unit := fun st =>
  let h := host (self st) in
  let '(r, w) := delete_session api h token (ctl st) in
  (r, {| self := self st; ctl := w; wire := wire st ++ [DeleteRequest h token] |}).

(** [headers[key]]: a missing key is a [KeyError]. *)
Definition getitem (headers : gmap string string) (key : string) : M string :=
  match headers !! key with
  | Some v => mret v
  | None => raise (Exn KeyError key)
  end.

(** [open_session(self, mode)] *)
Definition open_session (mode : pdhttp.Session) : M unit :=
  '(_, _, headers) ← api_open_session_with_http_info mode;
  t ← getitem headers "Authentication-Info";
  set_token (Some t).

(** [close_session(self)] *)
Definition close_session : M unit :=
  t ← get_token;
  match t with
  | Some t => api_delete_session t ;; set_token None
  | None => mret tt
  end.

(** [__enter__(self)]: opens read-write and returns the object itself, which
    the state already holds. *)
Definition __enter__ : M unit :=
  open_session READ_WRITE ;; mret tt.

(** [__exit__(self, exc_type, exc_value, traceback)].  Falling off the end
    returns [None], which the [with] statement reads as: do not suppress. *)
Definition __exit__ (exc_value : option exn) : M bool :=
  close_session ;;
  match exc_value with
  | Some e => raise e
  | None => mret false
  end.

(** The [token] property. *)
Definition token : M (option string) := get_token.

(** The [location] property and its setter. *)
Definition location : M string := fun st => (Return (host (self st)), st).

Definition set_location (new_location : string) : M unit := fun st =>
  (Return tt,
   {| self := rebind (self st) new_location; ctl := ctl st; wire := wire st |}).

(** *** Python's control statements *)

(** [with mgr: body], for a manager given by its [__enter__] and [__exit__]:
    a failing [__enter__] skips body and exit; [__exit__] receives the
    exception of the body, if any; an exception of [__exit__] replaces it;
    a true result of [__exit__] suppresses it. *)
Definition with_stmt (enter : M unit) (exit : option exn -> M bool)
    (body : M unit) : M unit := fun st =>
  match enter st with
  | (Raise e, st1) => (Raise e, st1)
  | (Return _, st1) =>
    match body st1 with
    | (Return _, st2) =>
      match exit None st2 with
      | (Return _, st3) => (Return tt, st3)
      | (Raise e', st3) => (Raise e', st3)
      end
    | (Raise e, st2) =>
      match exit (Some e) st2 with
      | (Return true, st3) => (Return tt, st3)
      | (Return false, st3) => (Raise e, st3)
      | (Raise e', st3) => (Raise e', st3)
      end
    end
  end.

(** [try: body / except: handler]. *)
Definition try_except {A} (body : M A) (handler : exn -> M A) : M A := fun st =>
  match body st with
  | (Return a, st1) => (Return a, st1)
  | (Raise e, st1) => handler e st1
  end.

(** [try: body / finally: final]: [final] always runs; when it raises, its
    exception is the one that leaves the statement. *)
Definition try_finally {A} (body : M A) (final : M unit) : M A := fun st =>
  let '(r, st1) := body st in
  match final st1 with
  | (Return _, st2) => (r, st2)
  | (Raise e', st2) => (Raise e', st2)
  end.

(** [with self: body], the exclusive read-write scope. *)
Definition with_session (body : M unit) : M unit :=
  with_stmt __enter__ __exit__ body.

(** [with self.ro_context(): body], the read-only scope.  The generator runs
    up to its [yield] on entry; the body of the [with] statement runs at the
    [yield], and an exception of the body is thrown into the generator
    there, inside its [try]. *)
Definition ro_context (body : M unit) : M unit :=
  try_finally
    (try_except (open_session READ_ONLY ;; body) (fun e => raise e))
    close_session.

End WithController.

Arguments raise {api A} e.
Arguments mkState {api} _ _ _.
Arguments self {api} _.
Arguments ctl {api} _.
Arguments wire {api} _.
Arguments sent {api} _ _ _ _.

(** *** A controller to run the methods against

    [stub accept close_ok] counts the requests it serves.  It grants every
    open request a token named after the mode when [accept] holds and refuses
    it otherwise; it honours a delete request when [close_ok] holds and fails
    it otherwise. *)
Definition ApiException (reason : string) : exn := Exn "ApiException" reason.

Definition stub (accept close_ok : bool) : SessionApi := {|
  world := nat;
  open_session_with_http_info h body n :=
    (if accept
     then Return (body, 200%Z,
                  ({[ "Authentication-Info" := "token-" +:+ pdhttp.mode body ]}
                     : gmap string string))
     else Raise (ApiException "open refused"),
     S n);
  delete_session h t n :=
    (if close_ok then Return tt else Raise (ApiException "close failed"), S n)
|}.

(** A freshly constructed object in front of a controller in state [w]. *)
Definition fresh (api : SessionApi) (location : string) (w : world api)
    : state api :=
  mkState (__init__ location) w [].

(** An object that holds token [t], in front of a controller in state [w]. *)
Definition holding (api : SessionApi) (location t : string) (w : world api)
    : state api :=
  mkState {| _token := Some t; host := location |} w [].

(** An error for the body of a scope to raise. *)
Definition boom : exn := Exn "ValueError" "boom".

(** A scope body that raises [boom] at once. *)
Definition failing_body (api : SessionApi) : M api unit := raise boom.

(** A scope body that returns at once. *)
Definition idle_body (api : SessionApi) : M api unit := mret tt.

(** Lower case of a header name: the response headers of the controller
    ignore the case of the names. *)
Definition ascii_lower (c : Ascii.ascii) : Ascii.ascii :=
  let n := Ascii.nat_of_ascii c in
  if (65 <=? n)%nat && (n <=? 90)%nat then Ascii.ascii_of_nat (n + 32) else c.

Fixpoint lower (s : string) : string :=
  match s with
  | EmptyString => EmptyString
  | String c s' => String (ascii_lower c) (lower s')
  end.

(** A controller that answers every open request with success and no
    Authentication-Info header, and honours every delete request. *)
Definition headerless : SessionApi := {|
  world := nat;
  open_session_with_http_info h body n :=
    (Return (body, 200%Z, (∅ : gmap string string)), S n);
  delete_session h t n := (Return tt, S n)
|}.

End session.


(** * Properties *)

Import pdhttp utils session.

(** ** The builders *)

Example pose_of_six :
  pose (A:=unit) [10; 20; 30; 40; 50; 60] None
  = Return (mkPose [10; 20; 30; 40; 50; 60]).
Proof. reflexivity. Qed.

#[local] Set Warnings "-inexact-float".

Example position_of_docstring :
  position (A:=unit) [0.3; 0.2; 0.1] [3.1415; 0; 0] None
  = Return (mkPosition (mkPoint 0.3 0.2 0.1) (mkRotation 3.1415 0 0)
              None None).
Proof. reflexivity. Qed.

#[local] Set Warnings "+inexact-float".

Lemma Point_call_three (l : list float) :
  length l = 3%nat ->
  exists p, Point_call l = Return p /\ [point_x p; point_y p; point_z p] = l.
Proof.
  destruct l as [|a [|b [|c [|d l]]]]; simpl; try discriminate.
  intros _. eexists; split; reflexivity.
Qed.

Lemma Point_call_few (l : list float) :
  (length l < 3)%nat ->
  exists field, Point_call l = Raise (Exn ValueError field).
Proof.
  destruct l as [|a [|b [|c l]]]; simpl; try lia; intros _; eexists;
    reflexivity.
Qed.

Lemma Point_call_many (l : list float) :
  (3 < length l)%nat -> Point_call l = Raise (Exn TypeError "Point").
Proof.
  destruct l as [|a [|b [|c [|d l]]]]; simpl; try lia. reflexivity.
Qed.

Lemma Rotation_call_three (l : list float) :
  length l = 3%nat ->
  exists r, Rotation_call l = Return r /\ [roll r; pitch r; yaw r] = l.
Proof.
  destruct l as [|a [|b [|c [|d l]]]]; simpl; try discriminate.
  intros _. eexists; split; reflexivity.
Qed.

Lemma Rotation_call_few (l : list float) :
  (length l < 3)%nat ->
  exists field, Rotation_call l = Raise (Exn ValueError field).
Proof.
  destruct l as [|a [|b [|c l]]]; simpl; try lia; intros _; eexists;
    reflexivity.
Qed.

Lemma Rotation_call_many (l : list float) :
  (3 < length l)%nat -> Rotation_call l = Raise (Exn TypeError "Rotation").
Proof.
  destruct l as [|a [|b [|c [|d l]]]]; simpl; try lia. reflexivity.
Qed.

(** The setter of a jog component refuses exactly the values beyond the
    bounds. *)
Lemma bounded_cases (field : string) (v : float) :
  (exceeds_unit v = false /\ bounded field v = Return v)
  \/ (exceeds_unit v = true /\ bounded field v = Raise (Exn ValueError field)).
Proof.
  unfold exceeds_unit, bounded.
  destruct (PrimFloat.ltb 1 v); destruct (PrimFloat.ltb v (-1)); simpl; auto.
Qed.

(** The constructor of the six components returns them unchanged when none
    is beyond the bounds, and raises [ValueError] otherwise. *)
Lemma JoggingAccelerationAcceleration_call_cases (x y z rx ry rz : float) :
  (exceeds_unit x || exceeds_unit y || exceeds_unit z
   || exceeds_unit rx || exceeds_unit ry || exceeds_unit rz = false
   /\ JoggingAccelerationAcceleration_call x y z rx ry rz
      = Return (mkJAA x y z rx ry rz))
  \/ (exceeds_unit x || exceeds_unit y || exceeds_unit z
      || exceeds_unit rx || exceeds_unit ry || exceeds_unit rz = true
      /\ exists field,
           JoggingAccelerationAcceleration_call x y z rx ry rz
           = Raise (Exn ValueError field)).
Proof.
  unfold JoggingAccelerationAcceleration_call.
  destruct (bounded_cases "x" x) as [[Hx ->]|[Hx ->]]; rewrite Hx; simpl;
    [|right; eauto].
  destruct (bounded_cases "y" y) as [[Hy ->]|[Hy ->]]; rewrite Hy; simpl;
    [|right; eauto].
  destruct (bounded_cases "z" z) as [[Hz ->]|[Hz ->]]; rewrite Hz; simpl;
    [|right; eauto].
  destruct (bounded_cases "rx" rx) as [[Hrx ->]|[Hrx ->]]; rewrite Hrx; simpl;
    [|right; eauto].
  destruct (bounded_cases "ry" ry) as [[Hry ->]|[Hry ->]]; rewrite Hry; simpl;
    [|right; eauto].
  destruct (bounded_cases "rz" rz) as [[Hrz ->]|[Hrz ->]]; rewrite Hrz; simpl;
    [left; auto | right; eauto].
Qed.

(** C4, as stated, at [jog(x=1.5)]: the component is outside [-1, 1] and the
    call raises the [ValueError] of the constructor of the six components;
    no [RangeError] is raised. *)
Lemma jog_range_check_counterexample :
  arg_in_range (Some 1.5) = false
  /\ raises ValueError (jog (Some 1.5) None None None None None)
  /\ ~ raises RangeError (jog (Some 1.5) None None None None None).
Proof. repeat split. discriminate. Qed.

(** C4, amended: whenever one of the six components of a call to [jog] is
    outside [-1, 1] (above 1 or below -1), the call raises [ValueError]: the
    error is the one of the constructor of the six components, [jog] checks
    nothing itself, and no call raises [RangeError].  A call that returns
    holds each supplied component unchanged and 0 for each one left out;
    [jog(x=1.0)] and [jog(x=-1.0)] succeed and [jog()] is the zero vector. *)
Theorem jog_bounds (x y z rx ry rz : option float) :
  (arg_exceeds x || arg_exceeds y || arg_exceeds z
   || arg_exceeds rx || arg_exceeds ry || arg_exceeds rz = true ->
   raises ValueError (jog x y z rx ry rz))
  /\ ~ raises RangeError (jog x y z rx ry rz)
  /\ (forall j, jog x y z rx ry rz = Return j ->
        jog_x (acceleration j) = default 0 x
        /\ jog_y (acceleration j) = default 0 y
        /\ jog_z (acceleration j) = default 0 z
        /\ jog_rx (acceleration j) = default 0 rx
        /\ jog_ry (acceleration j) = default 0 ry
        /\ jog_rz (acceleration j) = default 0 rz)
  /\ jog (Some 1.0) None None None None None
     = Return (mkJoggingAcceleration (mkJAA 1 0 0 0 0 0))
  /\ jog (Some (-1.0)) None None None None None
     = Return (mkJoggingAcceleration (mkJAA (-1) 0 0 0 0 0))
  /\ jog None None None None None None
     = Return (mkJoggingAcceleration (mkJAA 0 0 0 0 0 0)).
Proof.
  unfold jog, arg_exceeds. simpl.
  destruct (JoggingAccelerationAcceleration_call_cases
              (default 0 x) (default 0 y) (default 0 z)
              (default 0 rx) (default 0 ry) (default 0 rz))
    as [[He ->]|[He [field ->]]]; rewrite He; simpl.
  - split; [discriminate|]. split; [tauto|]. split; [|repeat split].
    intros j [= <-]. simpl. repeat split.
  - split; [reflexivity|]. split; [discriminate|]. split; [|repeat split].
    intros j [=].
Qed.

(** [jog_bounds] at [jog(rz=-2)]. *)
Lemma jog_bounds_witness :
  arg_exceeds None || arg_exceeds None || arg_exceeds None
  || arg_exceeds None || arg_exceeds None || arg_exceeds (Some (-2)) = true
  /\ raises ValueError (jog None None None None None (Some (-2))).
Proof.
  split; [reflexivity|].
  apply (proj1 (jog_bounds None None None None None (Some (-2)))).
  reflexivity.
Defined.

(** C6, as stated, at [pose([1, 2, 3])]: three angles, and the call returns
    the pose holding them; no [ShapeError] is raised. *)
Lemma pose_wrong_length_counterexample :
  length [1; 2; 3] <> 6%nat
  /\ pose (A:=unit) [1; 2; 3] None = Return (mkPose [1; 2; 3])
  /\ ~ raises ShapeError (pose (A:=unit) [1; 2; 3] None).
Proof. repeat split. - discriminate. - intros H; exact H. Qed.

(** C6, amended: [pose] checks no length.  For every sequence of angles, of
    length 6 or not, it raises nothing and returns the pose whose angles are
    the input in the same order: index [i] of the result is index [i] of the
    input, for every [i]. *)
Theorem pose_keeps_angles {A} (a : list float) (acts : option (list A)) :
  (exists p, pose a acts = Return p
     /\ length (angles p) = length a
     /\ forall i : nat, angles p !! i = a !! i)
  /\ ~ raises ShapeError (pose a acts).
Proof.
  split.
  - exists (mkPose a). repeat split.
  - unfold pose. simpl. tauto.
Qed.

(** C7, as stated, at [position([1, 2, 3, 4], [0, 0, 0])]: the point has four
    components and the call fails with the [TypeError] of the call to
    [Point], not with [ShapeError]. *)
Lemma position_wrong_length_counterexample :
  length [1; 2; 3; 4] <> 3%nat
  /\ position (A:=unit) [1; 2; 3; 4] [0; 0; 0] None
     = Raise (Exn TypeError "Point")
  /\ ~ raises ShapeError (position (A:=unit) [1; 2; 3; 4] [0; 0; 0] None).
Proof. repeat split. - discriminate. - simpl. discriminate. Qed.

(** C7, amended: for point and rotation of exactly 3 components each and no
    actions given, [position] returns the Position whose point and rotation
    equal the inputs component by component.  When point or rotation has
    another number of components, [position] checks nothing itself: the call
    fails with the error of the constructor that cannot take its arguments,
    [Point] before [Rotation], which is [ValueError] for fewer than 3
    components and [TypeError] for more than 3, and never [ShapeError]. *)
Theorem position_components {A} (pt rot : list float) (acts : option (list A)) :
  (length pt = 3%nat -> length rot = 3%nat ->
     exists P, position pt rot (@None (list A)) = Return P
       /\ [point_x (point P); point_y (point P); point_z (point P)] = pt
       /\ [roll (rotation P); pitch (rotation P); yaw (rotation P)] = rot)
  /\ (length pt <> 3%nat \/ length rot <> 3%nat ->
     exists e, position pt rot acts = Raise e
       /\ ((length pt < 3)%nat -> exn_class e = ValueError)
       /\ ((3 < length pt)%nat ->
           exn_class e = TypeError /\ exn_args e = "Point")
       /\ (length pt = 3%nat -> (length rot < 3)%nat ->
           exn_class e = ValueError)
       /\ (length pt = 3%nat -> (3 < length rot)%nat ->
           exn_class e = TypeError /\ exn_args e = "Rotation"))
  /\ ~ raises ShapeError (position pt rot acts).
Proof.
  unfold position. split; [|split].
  - intros Hp Hr.
    destruct (Point_call_three pt Hp) as [p [Ep Hpt]].
    destruct (Rotation_call_three rot Hr) as [r [Er Hrot]].
    exists (mkPosition p r None None). rewrite Ep, Er. simpl. auto.
  - intros H.
    destruct (lt_eq_lt_dec (length pt) 3) as [[Hp|Hp]|Hp].
    + destruct (Point_call_few pt Hp) as [f Ep]. rewrite Ep. simpl.
      eexists; split; [reflexivity|]. simpl.
      repeat split; try reflexivity; intros; lia.
    + destruct H as [H|H]; [contradiction|].
      destruct (Point_call_three pt Hp) as [p [Ep _]]. rewrite Ep. simpl.
      destruct (lt_eq_lt_dec (length rot) 3) as [[Hr|Hr]|Hr]; [|contradiction|].
      * destruct (Rotation_call_few rot Hr) as [f Er]. rewrite Er. simpl.
        eexists; split; [reflexivity|]. simpl.
        repeat split; try reflexivity; intros; lia.
      * rewrite (Rotation_call_many rot Hr). simpl.
        eexists; split; [reflexivity|]. simpl.
        repeat split; try reflexivity; intros; lia.
    + rewrite (Point_call_many pt Hp). simpl.
      eexists; split; [reflexivity|]. simpl.
      repeat split; try reflexivity; intros; lia.
  - destruct (lt_eq_lt_dec (length pt) 3) as [[Hp|Hp]|Hp].
    + destruct (Point_call_few pt Hp) as [f Ep]. rewrite Ep. simpl. discriminate.
    + destruct (Point_call_three pt Hp) as [p [Ep _]]. rewrite Ep. simpl.
      destruct (lt_eq_lt_dec (length rot) 3) as [[Hr|Hr]|Hr].
      * destruct (Rotation_call_few rot Hr) as [f Er]. rewrite Er. simpl.
        discriminate.
      * destruct (Rotation_call_three rot Hr) as [r [Er _]]. rewrite Er. simpl.
        destruct acts; simpl; [discriminate | tauto].
      * rewrite (Rotation_call_many rot Hr). simpl. discriminate.
    + rewrite (Point_call_many pt Hp). simpl. discriminate.
Qed.

(** [position_components] at a point and a rotation of three components, and
    at a point of two. *)
Lemma position_components_witness :
  (exists P, position (A:=unit) [1; 2; 3] [0; 0; 3.5] None = Return P
     /\ [point_x (point P); point_y (point P); point_z (point P)] = [1; 2; 3]
     /\ [roll (rotation P); pitch (rotation P); yaw (rotation P)] = [0; 0; 3.5])
  /\ (exists e, position (A:=unit) [1; 2] [0; 0; 3.5] None = Raise e
     /\ exn_class e = ValueError).
Proof.
  split.
  - apply (proj1 (position_components (A:=unit) [1; 2; 3] [0; 0; 3.5] None));
      reflexivity.
  - destruct (proj1 (proj2 (position_components (A:=unit) [1; 2] [0; 0; 3.5]
                              None))) as (e & He & Hfew & _).
    + left. simpl. lia.
    + exists e. split; [exact He|]. apply Hfew. simpl. lia.
Defined.

(** ** The session *)

Section SessionProperties.
Context (api : SessionApi).
Implicit Types (st : state api) (body : M api unit) (e : exn) (t : string).

Lemma close_session_held_eq st t :
  _token (self st) = Some t ->
  close_session api st =
    let q := DeleteRequest (host (self st)) t in
    match delete_session api (host (self st)) t (ctl st) with
    | (Return _, w) =>
        (Return tt, sent st {| _token := None; host := host (self st) |} w q)
    | (Raise e, w) => (Raise e, sent st (self st) w q)
    end.
Proof.
  intros Ht.
  unfold close_session, mbind, M_bind, get_token, api_delete_session, set_token.
  rewrite Ht. simpl.
  destruct (delete_session api (host (self st)) t (ctl st)) as [[[]|e] w];
    reflexivity.
Qed.

Lemma close_session_none_eq st :
  _token (self st) = None -> close_session api st = (Return tt, st).
Proof.
  intros Ht. unfold close_session, mbind, M_bind, get_token.
  rewrite Ht. reflexivity.
Qed.

Lemma open_session_eq (mode : pdhttp.Session) st :
  open_session api mode st =
    let h := host (self st) in
    let q := OpenRequest h mode in
    match open_session_with_http_info api h mode (ctl st) with
    | (Return (_, _, headers), w) =>
        match headers !! "Authentication-Info" with
        | Some t => (Return tt, sent st {| _token := Some t; host := h |} w q)
        | None =>
            (Raise (Exn KeyError "Authentication-Info"), sent st (self st) w q)
        end
    | (Raise e, w) => (Raise e, sent st (self st) w q)
    end.
Proof.
  unfold open_session, mbind, M_bind, api_open_session_with_http_info,
    getitem, set_token, raise.
  simpl.
  destruct (open_session_with_http_info api (host (self st)) mode (ctl st))
    as [[[[d s] headers]|e] w]; simpl; [|reflexivity].
  destruct (headers !! "Authentication-Info"); reflexivity.
Qed.

Lemma open_session_wire (mode : pdhttp.Session) st :
  wire (open_session api mode st).2
  = wire st ++ [OpenRequest (host (self st)) mode].
Proof.
  rewrite open_session_eq. simpl.
  destruct (open_session_with_http_info api (host (self st)) mode (ctl st))
    as [[[[d s] headers]|e] w]; simpl; [|reflexivity].
  destruct (headers !! "Authentication-Info"); reflexivity.
Qed.

Lemma enter_eq st : __enter__ api st = open_session api READ_WRITE st.
Proof.
  unfold __enter__, mbind, M_bind, mret, M_ret.
  destruct (open_session api READ_WRITE st) as [[[]|e] st']; reflexivity.
Qed.

Lemma exit_eq (exc : option exn) st :
  __exit__ api exc st =
    match close_session api st with
    | (Return _, st') =>
        (match exc with Some e => Raise e | None => Return false end, st')
    | (Raise e', st') => (Raise e', st')
    end.
Proof.
  unfold __exit__, mbind, M_bind, mret, M_ret, raise.
  destruct (close_session api st) as [[[]|e'] st']; destruct exc; reflexivity.
Qed.

(** Leaving the exclusive scope after the body raised [e]. *)
Lemma with_session_raise_eq st0 st1 st2 body e :
  __enter__ api st0 = (Return tt, st1) ->
  body st1 = (Raise e, st2) ->
  with_session api body st0 =
    match close_session api st2 with
    | (Return _, st3) => (Raise e, st3)
    | (Raise e', st3) => (Raise e', st3)
    end.
Proof.
  intros He Hb. unfold with_session, with_stmt.
  rewrite He, Hb, exit_eq.
  destruct (close_session api st2) as [[[]|e'] st3]; reflexivity.
Qed.

(** Leaving the read-only scope after the body raised [e]. *)
Lemma ro_context_raise_eq st0 st1 st2 body e :
  open_session api READ_ONLY st0 = (Return tt, st1) ->
  body st1 = (Raise e, st2) ->
  ro_context api body st0 =
    match close_session api st2 with
    | (Return _, st3) => (Raise e, st3)
    | (Raise e', st3) => (Raise e', st3)
    end.
Proof.
  intros Ho Hb.
  unfold ro_context, try_finally, try_except, mbind, M_bind, raise.
  rewrite Ho, Hb.
  destruct (close_session api st2) as [[[]|e'] st3]; reflexivity.
Qed.

(** C1, amended: for a Session that holds a token, [close_session] sends
    exactly one delete request, scoped to that token, and ends the way that
    request ends.  When the request returns, the token is set to [None]; when
    it raises, the exception reaches the caller and the token is still the
    one that was held. *)
Theorem close_session_held st t :
  _token (self st) = Some t ->
  let reply := delete_session api (host (self st)) t (ctl st) in
  let after := (close_session api st).2 in
  (close_session api st).1 = reply.1
  /\ wire after = wire st ++ [DeleteRequest (host (self st)) t]
  /\ ctl after = reply.2
  /\ host (self after) = host (self st)
  /\ _token (self after)
     = match reply.1 with Return _ => None | Raise _ => Some t end.
Proof.
  intros Ht. simpl. rewrite (close_session_held_eq st t Ht). simpl.
  destruct (delete_session api (host (self st)) t (ctl st)) as [[[]|e] w];
    simpl; rewrite ?Ht; auto.
Qed.

(** C2, amended: for an exclusive read-write scope whose entry succeeded and
    whose body raised [e], provided the close at scope exit returns (the
    delete request for the held token succeeds, or no token is held any
    more), the token is [None] right after the scope and [e] itself is
    raised to the caller. *)
Theorem with_session_reraises st0 st1 st2 body e :
  __enter__ api st0 = (Return tt, st1) ->
  body st1 = (Raise e, st2) ->
  (close_session api st2).1 = Return tt ->
  with_session api body st0 = (Raise e, (close_session api st2).2)
  /\ _token (self (with_session api body st0).2) = None.
Proof.
  intros He Hb Hc.
  rewrite (with_session_raise_eq st0 st1 st2 body e He Hb).
  destruct (_token (self st2)) as [t|] eqn:Ht.
  - rewrite (close_session_held_eq st2 t Ht) in *. simpl in *.
    destruct (delete_session api (host (self st2)) t (ctl st2)) as [[[]|e'] w];
      simpl in *; [auto | discriminate].
  - rewrite (close_session_none_eq st2 Ht). simpl. auto.
Qed.

(** C3, amended: a new Session has token [None].  [open_session] on a
    Session without a token leaves a token exactly when the controller
    accepts, that is, answers with an Authentication-Info header, and then
    returns; when the controller rejects, the error reaches the caller and
    the token is as before, [None].  [close_session] leaves token [None]
    whenever it returns; it raises only when the delete request for a held
    token fails, and then the token is still held. *)
Theorem token_transitions :
  (forall loc, _token (__init__ loc) = None)
  /\ (forall st mode,
        let reply := open_session_with_http_info api (host (self st)) mode (ctl st) in
        let r := open_session api mode st in
        (forall d s headers t,
           reply.1 = Return (d, s, headers) ->
           headers !! "Authentication-Info" = Some t ->
           r.1 = Return tt /\ _token (self r.2) = Some t)
        /\ (forall e, reply.1 = Raise e ->
              r.1 = Raise e /\ _token (self r.2) = _token (self st))
        /\ (_token (self st) = None ->
              (is_Some (_token (self r.2)) <-> r.1 = Return tt)
              /\ (r.1 = Return tt <->
                  exists d s headers,
                    reply.1 = Return (d, s, headers)
                    /\ is_Some (headers !! "Authentication-Info"))))
  /\ (forall st,
        let r := close_session api st in
        (r.1 = Return tt -> _token (self r.2) = None)
        /\ (forall e, r.1 = Raise e ->
              _token (self r.2) = _token (self st)
              /\ exists t, _token (self st) = Some t
                   /\ (delete_session api (host (self st)) t (ctl st)).1 = Raise e)).
Proof.
  split; [reflexivity|split].
  - intros st mode. simpl. rewrite open_session_eq. simpl.
    destruct (open_session_with_http_info api (host (self st)) mode (ctl st))
      as [[[[d s] headers]|e] w]; simpl.
    + destruct (headers !! "Authentication-Info") as [t|] eqn:Hh; simpl.
      * split; [|split].
        -- intros d' s' h' t' [= -> -> <-] Hh'. rewrite Hh in Hh'.
           injection Hh' as ->. auto.
        -- intros e [=].
        -- intros _. split; [split; eauto|].
           split; [|reflexivity]. intros _. exists d, s, headers.
           rewrite Hh. eauto.
      * split; [|split].
        -- intros d' s' h' t' [= -> -> <-] Hh'. rewrite Hh in Hh'. discriminate.
        -- intros e [=].
        -- intros Hn. rewrite Hn. split.
           ++ split; [intros [x [=]] | intros [=]].
           ++ split; [intros [=]|].
              intros (d' & s' & h' & [= -> -> <-] & [x Hx]).
              rewrite Hh in Hx. discriminate.
    + split; [|split].
      * intros d s h t [=].
      * intros e' [= ->]. auto.
      * intros Hn. rewrite Hn. split.
        -- split; [intros [x [=]] | intros [=]].
        -- split; [intros [=]|]. intros (d & s & h & [=] & _).
  - intros st. simpl.
    destruct (_token (self st)) as [t|] eqn:Ht.
    + rewrite (close_session_held_eq st t Ht). simpl.
      destruct (delete_session api (host (self st)) t (ctl st))
        as [[[]|e'] w] eqn:Hd; simpl.
      * split; [reflexivity|]. intros e [=].
      * split; [intros [=]|]. intros e [= ->]. split; [exact Ht|].
        exists t. rewrite Hd. auto.
    + rewrite (close_session_none_eq st Ht). simpl.
      split; [auto|]. intros e [=].
Qed.

(** C5, amended: at the exit of either scope, when the body has raised [e]
    and the close call then fails with [e'], it is the close failure [e']
    that is raised to the caller, in place of the body's error; the delete
    request was sent and the token is still held. *)
Theorem scope_exit_close_failure st0 st1 st2 body e t e' (w : world api) :
  body st1 = (Raise e, st2) ->
  _token (self st2) = Some t ->
  delete_session api (host (self st2)) t (ctl st2) = (Raise e', w) ->
  let st3 := sent st2 (self st2) w (DeleteRequest (host (self st2)) t) in
  (__enter__ api st0 = (Return tt, st1) ->
     with_session api body st0 = (Raise e', st3))
  /\ (open_session api READ_ONLY st0 = (Return tt, st1) ->
     ro_context api body st0 = (Raise e', st3))
  /\ _token (self st3) = Some t.
Proof.
  intros Hb Ht Hd. simpl. split; [|split].
  - intros He. rewrite (with_session_raise_eq st0 st1 st2 body e He Hb).
    rewrite (close_session_held_eq st2 t Ht). simpl. rewrite Hd. reflexivity.
  - intros Ho. rewrite (ro_context_raise_eq st0 st1 st2 body e Ho Hb).
    rewrite (close_session_held_eq st2 t Ht). simpl. rewrite Hd. reflexivity.
  - exact Ht.
Qed.

(** C8: with no token held, [close_session] sends nothing, raises nothing and
    leaves the whole state as it was; in particular a [close_session] that
    follows one that returned does so. *)
Theorem close_session_idempotent st :
  (_token (self st) = None -> close_session api st = (Return tt, st))
  /\ ((close_session api st).1 = Return tt ->
      close_session api (close_session api st).2
      = (Return tt, (close_session api st).2)).
Proof.
  split; [apply close_session_none_eq|].
  intros Hc. apply close_session_none_eq.
  destruct (_token (self st)) as [t|] eqn:Ht.
  - rewrite (close_session_held_eq st t Ht) in *. simpl in *.
    destruct (delete_session api (host (self st)) t (ctl st)) as [[[]|e] w];
      simpl in *; [reflexivity | discriminate].
  - rewrite (close_session_none_eq st Ht). exact Ht.
Qed.

(** C9, amended: setting the location is never rejected.  With a token held
    as without one it raises nothing, sends nothing, leaves the token as it
    was and rebinds the target location: the getter returns the new
    location and the next open request goes there. *)
Theorem set_location_rebinds st (new_location : string) (mode : pdhttp.Session) :
  let r := set_location api new_location st in
  r.1 = Return tt
  /\ host (self r.2) = new_location
  /\ _token (self r.2) = _token (self st)
  /\ ctl r.2 = ctl st
  /\ wire r.2 = wire st
  /\ (location api r.2).1 = Return new_location
  /\ wire (open_session api mode r.2).2
     = wire st ++ [OpenRequest new_location mode].
Proof.
  simpl. repeat split. apply open_session_wire.
Qed.

(** C10: on a Session that already holds a token [t], [open_session] has no
    guard.  It sends one open request and no delete request; its outcome is
    the one it has on the same Session without a token; when the controller
    accepts with token [t'] it returns and the stored token is [t']; the
    wire holds no delete request that was not there before. *)
Theorem open_session_while_open st t (mode : pdhttp.Session) :
  _token (self st) = Some t ->
  let reply := open_session_with_http_info api (host (self st)) mode (ctl st) in
  let r := open_session api mode st in
  let closed := mkState {| _token := None; host := host (self st) |} (ctl st) (wire st) in
  wire r.2 = wire st ++ [OpenRequest (host (self st)) mode]
  /\ r.1 = (open_session api mode closed).1
  /\ (forall d s headers t',
        reply.1 = Return (d, s, headers) ->
        headers !! "Authentication-Info" = Some t' ->
        r.1 = Return tt /\ _token (self r.2) = Some t' /\ ctl r.2 = reply.2)
  /\ (forall h' t0, DeleteRequest h' t0 ∈ wire r.2 -> DeleteRequest h' t0 ∈ wire st).
Proof.
  intros Ht. simpl. split; [apply open_session_wire|]. split; [|split].
  - rewrite !open_session_eq. simpl.
    destruct (open_session_with_http_info api (host (self st)) mode (ctl st))
      as [[[[d s] headers]|e] w]; simpl; [|reflexivity].
    destruct (headers !! "Authentication-Info"); reflexivity.
  - intros d s headers t'. rewrite open_session_eq. simpl.
    destruct (open_session_with_http_info api (host (self st)) mode (ctl st))
      as [[[[d0 s0] h0]|e] w]; simpl; [|discriminate].
    intros [= -> -> ->] Hh. rewrite Hh. simpl. auto.
  - intros h' t0. rewrite open_session_wire.
    rewrite elem_of_app, list_elem_of_singleton.
    intros [H|H]; [exact H | discriminate].
Qed.

End SessionProperties.

(** ** Runs against the stub controller *)

(** [close_session_held] at a Session holding "tok" whose controller honours
    the delete request. *)
Lemma close_session_held_witness :
  let st := holding (stub true true) "http://robot" "tok" 0%nat in
  _token (self st) = Some "tok"
  /\ (close_session _ st).1 = Return tt
  /\ wire (close_session _ st).2 = [DeleteRequest "http://robot" "tok"]
  /\ ctl (close_session _ st).2 = 1%nat
  /\ host (self (close_session _ st).2) = "http://robot"
  /\ _token (self (close_session _ st).2) = None.
Proof.
  intros st. split; [reflexivity|].
  exact (close_session_held (stub true true) st "tok" eq_refl).
Defined.

(** C1, as stated, at a Session holding "tok" whose controller fails the
    delete request: one delete request is sent, [close_session] raises, and
    the token is still "tok", not [None]. *)
Lemma close_session_failure_counterexample :
  let st := holding (stub true false) "http://robot" "tok" 0%nat in
  wire (close_session _ st).2 = [DeleteRequest "http://robot" "tok"]
  /\ (close_session _ st).1 = Raise (ApiException "close failed")
  /\ _token (self (close_session _ st).2) = Some "tok"
  /\ _token (self (close_session _ st).2) <> None.
Proof. intros st. repeat split. discriminate. Qed.

(** [with_session_reraises] at a new Session whose controller accepts the
    open request and honours the delete request. *)
Lemma with_session_reraises_witness :
  let api := stub true true in
  let st0 := fresh api "http://robot" 0%nat in
  let st1 := (__enter__ api st0).2 in
  __enter__ api st0 = (Return tt, st1)
  /\ failing_body api st1 = (Raise boom, st1)
  /\ (close_session api st1).1 = Return tt
  /\ with_session api (failing_body api) st0 = (Raise boom, (close_session api st1).2)
  /\ _token (self (with_session api (failing_body api) st0).2) = None.
Proof.
  intros api st0 st1.
  split; [reflexivity|]. split; [reflexivity|]. split; [reflexivity|].
  exact (with_session_reraises api st0 st1 st1 (failing_body api) boom
           eq_refl eq_refl eq_refl).
Defined.

(** C2, as stated, at a scope whose entry succeeded, whose body raises
    [boom] and whose controller fails the delete request: after the scope
    the token is still held, and the error raised is the close failure, not
    [boom]. *)
Lemma with_session_close_failure_counterexample :
  let api := stub true false in
  let st0 := fresh api "http://robot" 0%nat in
  (__enter__ api st0).1 = Return tt
  /\ failing_body api (__enter__ api st0).2 = (Raise boom, (__enter__ api st0).2)
  /\ (with_session api (failing_body api) st0).1 = Raise (ApiException "close failed")
  /\ (with_session api (failing_body api) st0).1 <> Raise boom
  /\ _token (self (with_session api (failing_body api) st0).2)
     = Some "token-READ_WRITE"
  /\ _token (self (with_session api (failing_body api) st0).2) <> None.
Proof. intros api st0. repeat split; discriminate. Qed.

(** [token_transitions] along one round trip: construct, open read-write,
    close, with a controller that accepts both requests. *)
Lemma token_transitions_witness :
  let api := stub true true in
  let st0 := fresh api "http://robot" 0%nat in
  let st1 := (open_session api READ_WRITE st0).2 in
  _token (self st0) = None
  /\ ((open_session api READ_WRITE st0).1 = Return tt
      /\ _token (self st1) = Some "token-READ_WRITE")
  /\ (close_session api st1).1 = Return tt
  /\ _token (self (close_session api st1).2) = None.
Proof.
  intros api st0 st1.
  destruct (token_transitions api) as (Hinit & Hopen & Hclose).
  split; [exact (Hinit "http://robot")|].
  split.
  - exact (proj1 (Hopen st0 READ_WRITE) READ_WRITE 200%Z
             {[ "Authentication-Info" := "token-READ_WRITE" ]}
             "token-READ_WRITE" eq_refl eq_refl).
  - split; [reflexivity|]. exact (proj1 (Hclose st1) eq_refl).
Defined.

(** C3, as stated, at a Session opened read-write whose controller then
    fails the delete request: [close_session] leaves the token in place,
    not [None]. *)
Lemma close_session_keeps_token_counterexample :
  let api := stub true false in
  let st1 := (open_session api READ_WRITE (fresh api "http://robot" 0%nat)).2 in
  _token (self st1) = Some "token-READ_WRITE"
  /\ (close_session api st1).1 = Raise (ApiException "close failed")
  /\ _token (self (close_session api st1).2) = Some "token-READ_WRITE"
  /\ _token (self (close_session api st1).2) <> None.
Proof. intros api st1. repeat split. discriminate. Qed.

(** [scope_exit_close_failure] at both scopes, with a controller that accepts
    the open request and fails the delete request. *)
Lemma scope_exit_close_failure_witness :
  let api := stub true false in
  let st0 := fresh api "http://robot" 0%nat in
  let rw := (__enter__ api st0).2 in
  let ro := (open_session api READ_ONLY st0).2 in
  (failing_body api rw = (Raise boom, rw)
   /\ _token (self rw) = Some "token-READ_WRITE"
   /\ delete_session api "http://robot" "token-READ_WRITE" 1%nat
      = (Raise (ApiException "close failed"), 2%nat)
   /\ __enter__ api st0 = (Return tt, rw)
   /\ with_session api (failing_body api) st0
      = (Raise (ApiException "close failed"),
         sent rw (self rw) 2%nat
           (DeleteRequest "http://robot" "token-READ_WRITE")))
  /\ (failing_body api ro = (Raise boom, ro)
   /\ _token (self ro) = Some "token-READ_ONLY"
   /\ delete_session api "http://robot" "token-READ_ONLY" 1%nat
      = (Raise (ApiException "close failed"), 2%nat)
   /\ open_session api READ_ONLY st0 = (Return tt, ro)
   /\ ro_context api (failing_body api) st0
      = (Raise (ApiException "close failed"),
         sent ro (self ro) 2%nat
           (DeleteRequest "http://robot" "token-READ_ONLY"))).
Proof.
  intros api st0 rw ro. split.
  - repeat (split; [reflexivity|]).
    exact (proj1 (scope_exit_close_failure api st0 rw rw (failing_body api)
                    boom "token-READ_WRITE" (ApiException "close failed")
                    2%nat eq_refl eq_refl eq_refl) eq_refl).
  - repeat (split; [reflexivity|]).
    exact (proj1 (proj2 (scope_exit_close_failure api st0 ro ro
                    (failing_body api) boom "token-READ_ONLY"
                    (ApiException "close failed") 2%nat
                    eq_refl eq_refl eq_refl)) eq_refl).
Defined.

(** C5, as stated, at both scopes with a body that raises [boom] and a
    controller that fails the delete request: the error raised to the caller
    is the close failure, not [boom]. *)
Lemma scope_exit_masks_body_error_counterexample :
  let api := stub true false in
  let st0 := fresh api "http://robot" 0%nat in
  (failing_body api (__enter__ api st0).2).1 = Raise boom
  /\ (close_session api (__enter__ api st0).2).1
     = Raise (ApiException "close failed")
  /\ (with_session api (failing_body api) st0).1
     = Raise (ApiException "close failed")
  /\ (with_session api (failing_body api) st0).1 <> Raise boom
  /\ (ro_context api (failing_body api) st0).1
     = Raise (ApiException "close failed")
  /\ (ro_context api (failing_body api) st0).1 <> Raise boom.
Proof. intros api st0. repeat split; discriminate. Qed.

(** [close_session_idempotent] at a new Session, and at one that has just
    closed the token "tok". *)
Lemma close_session_idempotent_witness :
  let api := stub true true in
  let st := holding api "http://robot" "tok" 0%nat in
  let st0 := fresh api "http://robot" 0%nat in
  (_token (self st0) = None /\ close_session api st0 = (Return tt, st0))
  /\ ((close_session api st).1 = Return tt
      /\ close_session api (close_session api st).2
         = (Return tt, (close_session api st).2)).
Proof.
  intros api st st0. split.
  - split; [reflexivity|].
    exact (proj1 (close_session_idempotent api st0) eq_refl).
  - split; [reflexivity|].
    exact (proj2 (close_session_idempotent api st) eq_refl).
Defined.

(** C9, as stated, at a Session holding "tok": setting the location returns,
    raises nothing, and the host is the new one. *)
Lemma set_location_while_open_counterexample :
  let api := stub true true in
  let st := holding api "http://robot" "tok" 0%nat in
  _token (self st) = Some "tok"
  /\ set_location api "http://other" st
     = (Return tt, holding api "http://other" "tok" 0%nat)
  /\ ~ (exists e, (set_location api "http://other" st).1 = Raise e).
Proof. intros api st. repeat split. intros [e H]. discriminate H. Qed.

(** [open_session_while_open] at a Session holding "old": the controller
    grants a new token, which replaces it. *)
Lemma open_session_while_open_witness :
  let api := stub true true in
  let st := holding api "http://robot" "old" 0%nat in
  let r := open_session api READ_WRITE st in
  _token (self st) = Some "old"
  /\ wire r.2 = [OpenRequest "http://robot" READ_WRITE]
  /\ r.1 = (open_session api READ_WRITE (fresh api "http://robot" 0%nat)).1
  /\ (r.1 = Return tt
      /\ _token (self r.2) = Some "token-READ_WRITE"
      /\ ctl r.2 = 1%nat).
Proof.
  intros api st r. split; [reflexivity|].
  destruct (open_session_while_open api st "old" READ_WRITE eq_refl)
    as (Hw & Hr & Hok & _).
  split; [exact Hw|]. split; [exact Hr|].
  exact (Hok READ_WRITE 200%Z {[ "Authentication-Info" := "token-READ_WRITE" ]}
           "token-READ_WRITE" eq_refl eq_refl).
Defined.

(** ** Further properties of the session *)

Section SessionComposition.
Context (api : SessionApi).
Implicit Types (st : state api) (body : M api unit) (e : exn) (t : string).

(** What a returning [open_session] has done. *)
Lemma open_session_returns (mode : pdhttp.Session) st st1 :
  open_session api mode st = (Return tt, st1) ->
  exists d s headers t,
    open_session_with_http_info api (host (self st)) mode (ctl st)
    = (Return (d, s, headers), ctl st1)
    /\ headers !! "Authentication-Info" = Some t
    /\ self st1 = {| _token := Some t; host := host (self st) |}
    /\ wire st1 = wire st ++ [OpenRequest (host (self st)) mode].
Proof.
  rewrite open_session_eq. simpl.
  destruct (open_session_with_http_info api (host (self st)) mode (ctl st))
    as [[[[d s] headers]|e] w]; [|discriminate].
  destruct (headers !! "Authentication-Info") as [t|] eqn:Hh; [|discriminate].
  intros [= <-]. exists d, s, headers, t. auto.
Qed.

(** What a raising [open_session] has left alone. *)
Lemma open_session_raises (mode : pdhttp.Session) st e :
  (open_session api mode st).1 = Raise e ->
  self (open_session api mode st).2 = self st.
Proof.
  rewrite open_session_eq. simpl.
  destruct (open_session_with_http_info api (host (self st)) mode (ctl st))
    as [[[[d s] headers]|e'] w]; simpl; [|reflexivity].
  destruct (headers !! "Authentication-Info"); simpl; [discriminate|reflexivity].
Qed.

Lemma close_session_wire_held st t :
  _token (self st) = Some t ->
  wire (close_session api st).2 = wire st ++ [DeleteRequest (host (self st)) t].
Proof.
  intros Ht. rewrite (close_session_held_eq api st t Ht). simpl.
  destruct (delete_session api (host (self st)) t (ctl st)) as [[[]|e] w];
    reflexivity.
Qed.

Lemma close_session_returns_token st :
  (close_session api st).1 = Return tt ->
  _token (self (close_session api st).2) = None.
Proof.
  destruct (_token (self st)) as [t|] eqn:Ht.
  - rewrite (close_session_held_eq api st t Ht). simpl.
    destruct (delete_session api (host (self st)) t (ctl st)) as [[[]|e] w];
      simpl; [reflexivity | discriminate].
  - rewrite (close_session_none_eq api st Ht). intros _. exact Ht.
Qed.

(** Leaving the exclusive scope, however the body ended. *)
Lemma with_session_wire st0 st1 st2 body (r : outcome unit) :
  __enter__ api st0 = (Return tt, st1) ->
  body st1 = (r, st2) ->
  wire (with_session api body st0).2 = wire (close_session api st2).2.
Proof.
  intros He Hb. unfold with_session, with_stmt. rewrite He, Hb.
  destruct r as [[]|e]; rewrite exit_eq;
    destruct (close_session api st2) as [[[]|e'] st3]; reflexivity.
Qed.

(** Leaving the read-only scope, however the body ended. *)
Lemma ro_context_wire st0 st1 st2 body (r : outcome unit) :
  open_session api READ_ONLY st0 = (Return tt, st1) ->
  body st1 = (r, st2) ->
  wire (ro_context api body st0).2 = wire (close_session api st2).2.
Proof.
  intros Ho Hb.
  unfold ro_context, try_finally, try_except, mbind, M_bind, raise.
  rewrite Ho, Hb.
  destruct r as [[]|e];
    destruct (close_session api st2) as [[[]|e'] st3]; reflexivity.
Qed.

(** X1: when the body of a scope returns, the scope ends exactly as
    [close_session] ends on the state the body left: it returns when the
    close returns, and a failing close is raised to the caller. *)
Theorem scope_body_returns st0 st1 st2 body :
  body st1 = (Return tt, st2) ->
  (__enter__ api st0 = (Return tt, st1) ->
     with_session api body st0 = close_session api st2)
  /\ (open_session api READ_ONLY st0 = (Return tt, st1) ->
     ro_context api body st0 = close_session api st2).
Proof.
  intros Hb. split.
  - intros He. unfold with_session, with_stmt. rewrite He, Hb, exit_eq.
    destruct (close_session api st2) as [[[]|e'] st3]; reflexivity.
  - intros Ho.
    unfold ro_context, try_finally, try_except, mbind, M_bind, raise.
    rewrite Ho, Hb.
    destruct (close_session api st2) as [[[]|e'] st3]; reflexivity.
Qed.

(** X2: when the open request of the exclusive scope fails, the scope raises
    that error, the body does not run, the open request is the only request
    sent (no delete request), and the object is as it was, a token held
    before included. *)
Theorem with_session_entry_fails st0 body e :
  (open_session api READ_WRITE st0).1 = Raise e ->
  with_session api body st0 = (Raise e, (open_session api READ_WRITE st0).2)
  /\ wire (with_session api body st0).2
     = wire st0 ++ [OpenRequest (host (self st0)) READ_WRITE]
  /\ self (with_session api body st0).2 = self st0.
Proof.
  intros Ho.
  assert (Hw : with_session api body st0
               = (Raise e, (open_session api READ_WRITE st0).2)).
  { unfold with_session, with_stmt. rewrite enter_eq.
    destruct (open_session api READ_WRITE st0) as [[[]|e'] st1];
      simpl in Ho; [discriminate|]. injection Ho as ->. reflexivity. }
  rewrite Hw. simpl. split; [reflexivity|]. split.
  - apply open_session_wire.
  - apply (open_session_raises READ_WRITE st0 e Ho).
Qed.

(** X3: when the open request of the read-only scope fails, the body does
    not run but [close_session] still does.  Without a token the scope raises
    the open error and sends nothing more; with a token [t] held from before,
    a delete request for [t] follows the failed open request. *)
Theorem ro_context_entry_fails st0 body e :
  (open_session api READ_ONLY st0).1 = Raise e ->
  let st1 := (open_session api READ_ONLY st0).2 in
  ro_context api body st0
  = match close_session api st1 with
    | (Return _, st2) => (Raise e, st2)
    | (Raise e', st2) => (Raise e', st2)
    end
  /\ (_token (self st0) = None -> ro_context api body st0 = (Raise e, st1))
  /\ (forall t, _token (self st0) = Some t ->
        wire (ro_context api body st0).2
        = wire st0 ++ [OpenRequest (host (self st0)) READ_ONLY;
                       DeleteRequest (host (self st0)) t]).
Proof.
  intros Ho. simpl.
  pose proof (open_session_raises READ_ONLY st0 e Ho) as Hself.
  pose proof (open_session_wire api READ_ONLY st0) as Hwire.
  assert (Hr : ro_context api body st0
               = match close_session api (open_session api READ_ONLY st0).2 with
                 | (Return _, st2) => (Raise e, st2)
                 | (Raise e', st2) => (Raise e', st2)
                 end).
  { unfold ro_context, try_finally, try_except, mbind, M_bind, raise.
    destruct (open_session api READ_ONLY st0) as [[[]|e'] st1];
      simpl in Ho; [discriminate|]. injection Ho as ->. simpl.
    destruct (close_session api st1) as [[[]|e'] st2]; reflexivity. }
  split; [exact Hr|]. split.
  - intros Hn. rewrite Hr, close_session_none_eq; [reflexivity|].
    rewrite Hself. exact Hn.
  - intros t Ht. rewrite Hr.
    assert (Ht1 : _token (self (open_session api READ_ONLY st0).2) = Some t)
      by (rewrite Hself; exact Ht).
    pose proof (close_session_wire_held _ t Ht1) as Hc.
    rewrite Hself, Hwire in Hc.
    destruct (close_session api (open_session api READ_ONLY st0).2)
      as [[[]|e'] st2]; simpl in *; rewrite Hc, <- app_assoc; reflexivity.
Qed.

(** X4: a scope whose entry succeeded and whose body leaves the object and
    the wire alone sends exactly two requests, whichever way the body ends
    and whether or not the close succeeds: the open request carrying the mode
    of the scope, then one delete request for the token that open granted.
    The two mode markers differ. *)
Theorem scope_requests st0 st1 st2 body (r : outcome unit) :
  body st1 = (r, st2) ->
  self st2 = self st1 ->
  wire st2 = wire st1 ->
  (__enter__ api st0 = (Return tt, st1) ->
     exists t, _token (self st1) = Some t
       /\ wire (with_session api body st0).2
          = wire st0 ++ [OpenRequest (host (self st0)) READ_WRITE;
                         DeleteRequest (host (self st0)) t])
  /\ (open_session api READ_ONLY st0 = (Return tt, st1) ->
     exists t, _token (self st1) = Some t
       /\ wire (ro_context api body st0).2
          = wire st0 ++ [OpenRequest (host (self st0)) READ_ONLY;
                         DeleteRequest (host (self st0)) t])
  /\ READ_WRITE <> READ_ONLY.
Proof.
  intros Hb Hs Hw.
  assert (Hclose : forall mode, open_session api mode st0 = (Return tt, st1) ->
            exists t, _token (self st1) = Some t
              /\ wire (close_session api st2).2
                 = wire st0 ++ [OpenRequest (host (self st0)) mode;
                                DeleteRequest (host (self st0)) t]).
  { intros mode Ho.
    destruct (open_session_returns mode st0 st1 Ho)
      as (d & s & headers & t & _ & _ & Hself & Hwire).
    exists t. split; [rewrite Hself; reflexivity|].
    rewrite (close_session_wire_held st2 t) by (rewrite Hs, Hself; reflexivity).
    rewrite Hs, Hw, Hself, Hwire, <- app_assoc. reflexivity. }
  split; [|split; [|discriminate]].
  - intros He. rewrite (with_session_wire st0 st1 st2 body r He Hb).
    apply Hclose. rewrite <- enter_eq. exact He.
  - intros Ho. rewrite (ro_context_wire st0 st1 st2 body r Ho Hb).
    apply Hclose, Ho.
Qed.

(** X5: when the controller answers an open request with success but with
    no Authentication-Info header, under any spelling of its case,
    [open_session] raises [KeyError]; the request has been sent and the
    controller has moved on, while the object, its token included, is as it
    was. *)
Theorem open_session_missing_header st (mode : pdhttp.Session)
    (d : pdhttp.Session) (s : Z) (headers : gmap string string) (w : world api) :
  open_session_with_http_info api (host (self st)) mode (ctl st)
  = (Return (d, s, headers), w) ->
  (forall name : string,
     lower name = lower "Authentication-Info" -> headers !! name = None) ->
  raises KeyError (open_session api mode st).1
  /\ (open_session api mode st).2
     = mkState (self st) w (wire st ++ [OpenRequest (host (self st)) mode]).
Proof.
  intros Hr Hh. rewrite open_session_eq. simpl.
  rewrite Hr, (Hh "Authentication-Info" eq_refl). simpl. auto.
Qed.

(** X6: open then close is a round trip.  When the controller accepts the
    open request with token [t] and then honours the delete request for [t],
    [open_session] followed by [close_session] returns, the delete request
    carries exactly the token that was granted, and the object ends without
    a token and with its host unchanged. *)
Theorem open_close_round_trip st (mode : pdhttp.Session)
    (d : pdhttp.Session) (s : Z) (headers : gmap string string) t
    (w1 w2 : world api) :
  open_session_with_http_info api (host (self st)) mode (ctl st)
  = (Return (d, s, headers), w1) ->
  headers !! "Authentication-Info" = Some t ->
  delete_session api (host (self st)) t w1 = (Return tt, w2) ->
  (open_session api mode ;; close_session api) st
  = (Return tt,
     mkState {| _token := None; host := host (self st) |} w2
       (wire st ++ [OpenRequest (host (self st)) mode;
                    DeleteRequest (host (self st)) t])).
Proof.
  intros Hr Hh Hd. unfold mbind, M_bind.
  rewrite open_session_eq. simpl. rewrite Hr, Hh.
  set (st1 := sent st {| _token := Some t; host := host (self st) |} w1
                (OpenRequest (host (self st)) mode)).
  rewrite (close_session_held_eq api st1 t eq_refl). simpl. rewrite Hd.
  unfold sent. simpl. rewrite <- app_assoc. reflexivity.
Qed.

(** X7: two opens in a row lose the first token.  After [open_session]
    returned twice, a [close_session] sends a delete request for the second
    token only; when the two tokens differ, no delete request for the first
    one has been added to the wire. *)
Theorem reopen_loses_first_token st st1 st2 (m1 m2 : pdhttp.Session) :
  open_session api m1 st = (Return tt, st1) ->
  open_session api m2 st1 = (Return tt, st2) ->
  exists t1 t2,
    _token (self st1) = Some t1
    /\ _token (self st2) = Some t2
    /\ wire (close_session api st2).2
       = wire st ++ [OpenRequest (host (self st)) m1;
                     OpenRequest (host (self st)) m2;
                     DeleteRequest (host (self st)) t2]
    /\ (t1 <> t2 ->
        forall h, DeleteRequest h t1 ∈ wire (close_session api st2).2 ->
                  DeleteRequest h t1 ∈ wire st).
Proof.
  intros H1 H2.
  destruct (open_session_returns m1 st st1 H1)
    as (d1 & s1 & hd1 & t1 & _ & _ & Hself1 & Hwire1).
  destruct (open_session_returns m2 st1 st2 H2)
    as (d2 & s2 & hd2 & t2 & _ & _ & Hself2 & Hwire2).
  assert (Hw : wire (close_session api st2).2
               = wire st ++ [OpenRequest (host (self st)) m1;
                             OpenRequest (host (self st)) m2;
                             DeleteRequest (host (self st)) t2]).
  { rewrite (close_session_wire_held st2 t2) by (rewrite Hself2; reflexivity).
    rewrite Hself2, Hwire2, Hself1, Hwire1. simpl.
    rewrite <- !app_assoc. reflexivity. }
  exists t1, t2. split; [rewrite Hself1; reflexivity|].
  split; [rewrite Hself2; reflexivity|]. split; [exact Hw|].
  intros Hne h. rewrite Hw, elem_of_app.
  intros [Hin|Hin]; [exact Hin|].
  rewrite !elem_of_cons, elem_of_nil in Hin.
  destruct Hin as [Hin|[Hin|[Hin|[]]]]; try discriminate.
  injection Hin as _ Heq. contradiction.
Qed.

(** X8: the delete request goes to the host bound at the time of the close.
    After the location of a Session holding [t] has been set to a new host,
    [close_session] sends the delete request for [t] to the new host and ends
    the way the controller answers there. *)
Theorem close_session_uses_bound_host st t (new_location : string) :
  _token (self st) = Some t ->
  let r := close_session api (set_location api new_location st).2 in
  r.1 = (delete_session api new_location t (ctl st)).1
  /\ wire r.2 = wire st ++ [DeleteRequest new_location t].
Proof.
  intros Ht.
  set (st' := (set_location api new_location st).2).
  assert (Ht' : _token (self st') = Some t) by exact Ht.
  simpl. rewrite (close_session_held_eq api st' t Ht'). simpl.
  destruct (delete_session api new_location t (ctl st)) as [[[]|e] w];
    simpl; auto.
Qed.

(** X9: the location property round-trips.  A new Session reports the
    location it was constructed with; setting the location it already has
    changes nothing; of two settings in a row the last one wins. *)
Theorem location_round_trip st (a b : string) (w : world api) :
  (location api (fresh api a w)).1 = Return a
  /\ set_location api (host (self st)) st = (Return tt, st)
  /\ set_location api b (set_location api a st).2 = set_location api b st.
Proof.
  repeat split. destruct st as [[tok h] c l]. reflexivity.
Qed.

(** X10: [open_session] and [close_session] never change the host, whatever
    the controller answers; only the location setter does. *)
Theorem host_kept st (mode : pdhttp.Session) :
  host (self (open_session api mode st).2) = host (self st)
  /\ host (self (close_session api st).2) = host (self st).
Proof.
  split.
  - rewrite open_session_eq. simpl.
    destruct (open_session_with_http_info api (host (self st)) mode (ctl st))
      as [[[[d s] headers]|e] w]; simpl; [|reflexivity].
    destruct (headers !! "Authentication-Info"); reflexivity.
  - destruct (_token (self st)) as [t|] eqn:Ht.
    + rewrite (close_session_held_eq api st t Ht). simpl.
      destruct (delete_session api (host (self st)) t (ctl st)) as [[[]|e] w];
        reflexivity.
    + rewrite (close_session_none_eq api st Ht). reflexivity.
Qed.

(** X11: for a read-only scope whose open succeeded and whose body raised
    [e], provided the close at scope exit returns, the token is [None] after
    the scope and [e] itself is raised to the caller. *)
Theorem ro_context_reraises st0 st1 st2 body e :
  open_session api READ_ONLY st0 = (Return tt, st1) ->
  body st1 = (Raise e, st2) ->
  (close_session api st2).1 = Return tt ->
  ro_context api body st0 = (Raise e, (close_session api st2).2)
  /\ _token (self (ro_context api body st0).2) = None.
Proof.
  intros Ho Hb Hc.
  rewrite (ro_context_raise_eq api st0 st1 st2 body e Ho Hb).
  pose proof (close_session_returns_token st2 Hc) as Hn.
  destruct (close_session api st2) as [[[]|e'] st3]; simpl in *;
    [auto | discriminate].
Qed.

(** X12: the [except: raise] clause of [ro_context] changes nothing: the
    scope behaves as the [try]/[finally] alone. *)
Theorem ro_context_except_is_noop st0 body :
  ro_context api body st0
  = try_finally api (open_session api READ_ONLY ;; body) (close_session api) st0.
Proof.
  unfold ro_context, try_finally, try_except, raise.
  destruct ((open_session api READ_ONLY ;; body) st0) as [[a|e] st1];
    reflexivity.
Qed.

(** X13: neither scope swallows an error.  Whenever the body raises, the
    scope raises too, and what it raises is the body's error or else the
    error of the failing close. *)
Theorem scopes_never_suppress st0 st1 st2 body e :
  body st1 = (Raise e, st2) ->
  (__enter__ api st0 = (Return tt, st1) ->
     exists e0, (with_session api body st0).1 = Raise e0
       /\ (e0 = e \/ (close_session api st2).1 = Raise e0))
  /\ (open_session api READ_ONLY st0 = (Return tt, st1) ->
     exists e0, (ro_context api body st0).1 = Raise e0
       /\ (e0 = e \/ (close_session api st2).1 = Raise e0)).
Proof.
  intros Hb. split.
  - intros He. rewrite (with_session_raise_eq api st0 st1 st2 body e He Hb).
    destruct (close_session api st2) as [[[]|e'] st3]; simpl; eauto.
  - intros Ho. rewrite (ro_context_raise_eq api st0 st1 st2 body e Ho Hb).
    destruct (close_session api st2) as [[[]|e'] st3]; simpl; eauto.
Qed.

End SessionComposition.

(** ** A further property of the builders *)

(** X14: [pose] drops its [actions] argument: whatever actions are passed,
    of whatever kind, the result is the same pose of the given angles. *)
Theorem pose_drops_actions {A B} (a : list float)
    (acts : option (list A)) (acts' : option (list B)) :
  pose a acts = pose a acts'
  /\ exists p, pose a acts = Return p /\ angles p = a.
Proof.
  split; [reflexivity|]. exists (mkPose a). split; reflexivity.
Qed.

(** ** Further runs against the stub controllers *)

(** [scope_body_returns] at both scopes, with a body that returns and a
    controller that accepts every request. *)
Lemma scope_body_returns_witness :
  let api := stub true true in
  let st0 := fresh api "http://robot" 0%nat in
  let rw := (__enter__ api st0).2 in
  let ro := (open_session api READ_ONLY st0).2 in
  (idle_body api rw = (Return tt, rw)
   /\ __enter__ api st0 = (Return tt, rw)
   /\ with_session api (idle_body api) st0 = close_session api rw)
  /\ (idle_body api ro = (Return tt, ro)
   /\ open_session api READ_ONLY st0 = (Return tt, ro)
   /\ ro_context api (idle_body api) st0 = close_session api ro).
Proof.
  intros api st0 rw ro. split.
  - repeat (split; [reflexivity|]).
    exact (proj1 (scope_body_returns api st0 rw rw (idle_body api) eq_refl)
             eq_refl).
  - repeat (split; [reflexivity|]).
    exact (proj2 (scope_body_returns api st0 ro ro (idle_body api) eq_refl)
             eq_refl).
Defined.

(** [with_session_entry_fails] at a Session holding "tok" whose controller
    refuses the open request. *)
Lemma with_session_entry_fails_witness :
  let api := stub false true in
  let st0 := holding api "http://robot" "tok" 0%nat in
  let e := ApiException "open refused" in
  (open_session api READ_WRITE st0).1 = Raise e
  /\ with_session api (idle_body api) st0
     = (Raise e, (open_session api READ_WRITE st0).2)
  /\ wire (with_session api (idle_body api) st0).2
     = [OpenRequest "http://robot" READ_WRITE]
  /\ self (with_session api (idle_body api) st0).2 = self st0.
Proof.
  intros api st0 e. split; [reflexivity|].
  exact (with_session_entry_fails api st0 (idle_body api) e eq_refl).
Defined.

(** [ro_context_entry_fails] at a new Session and at a Session holding "tok",
    with a controller that refuses the open request. *)
Lemma ro_context_entry_fails_witness :
  let api := stub false true in
  let st0 := fresh api "http://robot" 0%nat in
  let held := holding api "http://robot" "tok" 0%nat in
  let e := ApiException "open refused" in
  ((open_session api READ_ONLY st0).1 = Raise e
   /\ _token (self st0) = None
   /\ ro_context api (idle_body api) st0
      = (Raise e, (open_session api READ_ONLY st0).2))
  /\ ((open_session api READ_ONLY held).1 = Raise e
   /\ _token (self held) = Some "tok"
   /\ wire (ro_context api (idle_body api) held).2
      = [OpenRequest "http://robot" READ_ONLY;
         DeleteRequest "http://robot" "tok"]).
Proof.
  intros api st0 held e. split.
  - repeat (split; [reflexivity|]).
    exact (proj1 (proj2 (ro_context_entry_fails api st0 (idle_body api) e
                           eq_refl)) eq_refl).
  - repeat (split; [reflexivity|]).
    exact (proj2 (proj2 (ro_context_entry_fails api held (idle_body api) e
                           eq_refl)) "tok" eq_refl).
Defined.

(** [scope_requests] at both scopes, with a body that raises and a
    controller that fails the delete request. *)
Lemma scope_requests_witness :
  let api := stub true false in
  let st0 := fresh api "http://robot" 0%nat in
  let rw := (__enter__ api st0).2 in
  let ro := (open_session api READ_ONLY st0).2 in
  (failing_body api rw = (Raise boom, rw)
   /\ __enter__ api st0 = (Return tt, rw)
   /\ exists t, _token (self rw) = Some t
        /\ wire (with_session api (failing_body api) st0).2
           = [OpenRequest "http://robot" READ_WRITE;
              DeleteRequest "http://robot" t])
  /\ (failing_body api ro = (Raise boom, ro)
   /\ open_session api READ_ONLY st0 = (Return tt, ro)
   /\ exists t, _token (self ro) = Some t
        /\ wire (ro_context api (failing_body api) st0).2
           = [OpenRequest "http://robot" READ_ONLY;
              DeleteRequest "http://robot" t]).
Proof.
  intros api st0 rw ro. split.
  - repeat (split; [reflexivity|]).
    exact (proj1 (scope_requests api st0 rw rw (failing_body api) (Raise boom)
                    eq_refl eq_refl eq_refl) eq_refl).
  - repeat (split; [reflexivity|]).
    exact (proj1 (proj2 (scope_requests api st0 ro ro (failing_body api)
                           (Raise boom) eq_refl eq_refl eq_refl)) eq_refl).
Defined.

(** [open_session_missing_header] at a new Session in front of the controller
    that sends no header at all. *)
Lemma open_session_missing_header_witness :
  let st := fresh headerless "http://robot" 0%nat in
  open_session_with_http_info headerless "http://robot" READ_WRITE 0%nat
  = (Return (READ_WRITE, 200%Z, ∅), 1%nat)
  /\ lower "Authentication-Info" = "authentication-info"
  /\ raises KeyError (open_session headerless READ_WRITE st).1
  /\ (open_session headerless READ_WRITE st).2
     = mkState (api:=headerless) (self st) 1%nat
         [OpenRequest "http://robot" READ_WRITE].
Proof.
  intros st. split; [reflexivity|]. split; [reflexivity|].
  exact (open_session_missing_header headerless st READ_WRITE READ_WRITE
           200%Z ∅ 1%nat eq_refl (fun name _ => lookup_empty name)).
Defined.

(** [open_close_round_trip] at a new Session whose controller accepts both
    requests. *)
Lemma open_close_round_trip_witness :
  let api := stub true true in
  let st := fresh api "http://robot" 0%nat in
  delete_session api "http://robot" "token-READ_WRITE" 1%nat = (Return tt, 2%nat)
  /\ (open_session api READ_WRITE ;; close_session api) st
     = (Return tt,
        mkState (api:=api) {| _token := None; host := "http://robot" |} 2%nat
          [OpenRequest "http://robot" READ_WRITE;
           DeleteRequest "http://robot" "token-READ_WRITE"]).
Proof.
  intros api st. split; [reflexivity|].
  exact (open_close_round_trip api st READ_WRITE READ_WRITE 200%Z
           {[ "Authentication-Info" := "token-READ_WRITE" ]}
           "token-READ_WRITE" 1%nat 2%nat eq_refl eq_refl eq_refl).
Defined.

(** [reopen_loses_first_token] at a new Session opened read-only and then
    read-write. *)
Lemma reopen_loses_first_token_witness :
  let api := stub true true in
  let st := fresh api "http://robot" 0%nat in
  let st1 := (open_session api READ_ONLY st).2 in
  let st2 := (open_session api READ_WRITE st1).2 in
  open_session api READ_ONLY st = (Return tt, st1)
  /\ open_session api READ_WRITE st1 = (Return tt, st2)
  /\ exists t1 t2,
       _token (self st1) = Some t1
       /\ _token (self st2) = Some t2
       /\ wire (close_session api st2).2
          = [OpenRequest "http://robot" READ_ONLY;
             OpenRequest "http://robot" READ_WRITE;
             DeleteRequest "http://robot" t2]
       /\ (t1 <> t2 ->
           forall h, DeleteRequest h t1 ∈ wire (close_session api st2).2 ->
                     DeleteRequest h t1 ∈ wire st).
Proof.
  intros api st st1 st2. split; [reflexivity|]. split; [reflexivity|].
  exact (reopen_loses_first_token api st st1 st2 READ_ONLY READ_WRITE
           eq_refl eq_refl).
Defined.

(** [close_session_uses_bound_host] at a Session holding "tok" whose location
    is set to another host before the close. *)
Lemma close_session_uses_bound_host_witness :
  let api := stub true true in
  let st := holding api "http://robot" "tok" 0%nat in
  let r := close_session api (set_location api "http://other" st).2 in
  _token (self st) = Some "tok"
  /\ r.1 = Return tt
  /\ wire r.2 = [DeleteRequest "http://other" "tok"].
Proof.
  intros api st r. split; [reflexivity|].
  exact (close_session_uses_bound_host api st "tok" "http://other" eq_refl).
Defined.

(** [ro_context_reraises] at a new Session whose controller accepts both
    requests. *)
Lemma ro_context_reraises_witness :
  let api := stub true true in
  let st0 := fresh api "http://robot" 0%nat in
  let st1 := (open_session api READ_ONLY st0).2 in
  open_session api READ_ONLY st0 = (Return tt, st1)
  /\ failing_body api st1 = (Raise boom, st1)
  /\ (close_session api st1).1 = Return tt
  /\ ro_context api (failing_body api) st0
     = (Raise boom, (close_session api st1).2)
  /\ _token (self (ro_context api (failing_body api) st0).2) = None.
Proof.
  intros api st0 st1. do 3 (split; [reflexivity|]).
  exact (ro_context_reraises api st0 st1 st1 (failing_body api) boom
           eq_refl eq_refl eq_refl).
Defined.

(** [scopes_never_suppress] at both scopes, with a controller that fails the
    delete request. *)
Lemma scopes_never_suppress_witness :
  let api := stub true false in
  let st0 := fresh api "http://robot" 0%nat in
  let rw := (__enter__ api st0).2 in
  let ro := (open_session api READ_ONLY st0).2 in
  (failing_body api rw = (Raise boom, rw)
   /\ __enter__ api st0 = (Return tt, rw)
   /\ exists e0, (with_session api (failing_body api) st0).1 = Raise e0
        /\ (e0 = boom \/ (close_session api rw).1 = Raise e0))
  /\ (failing_body api ro = (Raise boom, ro)
   /\ open_session api READ_ONLY st0 = (Return tt, ro)
   /\ exists e0, (ro_context api (failing_body api) st0).1 = Raise e0
        /\ (e0 = boom \/ (close_session api ro).1 = Raise e0)).
Proof.
  intros api st0 rw ro. split.
  - repeat (split; [reflexivity|]).
    exact (proj1 (scopes_never_suppress api st0 rw rw (failing_body api) boom
                    eq_refl) eq_refl).
  - repeat (split; [reflexivity|]).
    exact (proj2 (scopes_never_suppress api st0 ro ro (failing_body api) boom
                    eq_refl) eq_refl).
Defined.
